(** * FailingApp.h: the export header of FailingApp.dll

    The unit under verification is [Exceptions/.NET/FailingApp/FailingApp.h],
    a header of twenty-two lines: a conditional that selects the linkage
    macro [FAILINGAPP_API], and three declarations that carry it.

    The development follows the translation phases a C++ compiler applies
    to the header:

    - [Lexer]: the source lines, comment removal, tokens, directive lines;
    - [Preprocessor]: the macro table, the conditional stack, macro
      expansion of the text lines;
    - [Parser]: the declarations of the expanded token stream;
    - [FailingApp]: the header itself, run through the three phases for an
      arbitrary build configuration;
    - [Inclusion]: the header as part of a larger unit.

    The header only declares [nFailingApp], [fnFailingApp] and the
    constructor of [CFailingApp]; their definitions are in no file of the
    unit, so nothing here speaks of what they do when the program runs. *)

From stdpp Require Import gmap strings list fin_maps.
From Stdlib Require Import Ascii ZArith Lia.

(** ** Tokens and lines *)

Module Lexer.

(** A preprocessing token: an identifier or keyword, a number, or a
    punctuator character. *)
Inductive token : Type :=
  | Ident (s : string)
  | Number (s : string)
  | Punct (c : ascii).

#[global] Instance token_eq_dec : EqDecision token.
Proof. solve_decision. Defined.

Definition in_range (lo hi : nat) (c : ascii) : bool :=
  let n := nat_of_ascii c in (lo <=? n)%nat && (n <=? hi)%nat.

Definition is_digit (c : ascii) : bool := in_range 48 57 c.

Definition is_word_char (c : ascii) : bool :=
  in_range 65 90 c || in_range 97 122 c || is_digit c
  || (nat_of_ascii c =? 95)%nat.

(** Space, horizontal tab, carriage return. *)
Definition is_blank (c : ascii) : bool :=
  let n := nat_of_ascii c in (n =? 32)%nat || (n =? 9)%nat || (n =? 13)%nat.

(** Everything from the first [//] to the end of the line is a comment.
    The header has no string literal and no block comment, so neither is
    treated. *)
Fixpoint strip_comment (s : string) : string :=
  match s with
  | String "/" (String "/" _) => ""
  | String c rest => String c (strip_comment rest)
  | EmptyString => ""
  end.

Definition word_token (w : string) : list token :=
  match w with
  | EmptyString => []
  | String c _ => if is_digit c then [Number w] else [Ident w]
  end.

(** [lex_from w s]: the tokens of [s], where [w] is the word read so far. *)
Fixpoint lex_from (w s : string) : list token :=
  match s with
  | EmptyString => word_token w
  | String c rest =>
      if is_word_char c then lex_from (w +:+ String c "") rest
      else if is_blank c then word_token w ++ lex_from "" rest
      else word_token w ++ Punct c :: lex_from "" rest
  end.

Definition lex_line (s : string) : list token := lex_from "" (strip_comment s).

(** A logical line after lexing: a directive, or text. Only object-like
    macros are modelled. *)
Inductive line : Type :=
  | LIfdef (name : string)
  | LIfndef (name : string)
  | LElse
  | LEndif
  | LDefine (name : string) (body : list token)
  | LUndef (name : string)
  | LError
  | LBadDirective
  | LText (ts : list token).

Definition classify (ts : list token) : line :=
  match ts with
  | Punct "#" :: Ident "ifdef" :: Ident x :: [] => LIfdef x
  | Punct "#" :: Ident "ifndef" :: Ident x :: [] => LIfndef x
  | Punct "#" :: Ident "else" :: [] => LElse
  | Punct "#" :: Ident "endif" :: [] => LEndif
  | Punct "#" :: Ident "define" :: Ident x :: body => LDefine x body
  | Punct "#" :: Ident "undef" :: Ident x :: [] => LUndef x
  | Punct "#" :: Ident "error" :: _ => LError
  | Punct "#" :: _ => LBadDirective
  | _ => LText ts
  end.

Definition lex (src : list string) : list line :=
  map (fun s => classify (lex_line s)) src.

(** The identifiers (keywords included) among some tokens. *)
Definition idents (ts : list token) : list string :=
  omap (fun t => match t with Ident x => Some x | _ => None end) ts.

Definition text_of (l : line) : option (list token) :=
  match l with LText ts => Some ts | _ => None end.

End Lexer.

(** ** The source text *)

Module Source.

(** FailingApp.h, one string per line, in file order (line 1 first). *)
Definition FailingApp_h : list string :=
  [ "// The following ifdef block is the standard way of creating macros which make exporting "
  ; "// from a DLL simpler. All files within this DLL are compiled with the FAILINGAPP_EXPORTS"
  ; "// symbol defined on the command line. This symbol should not be defined on any project"
  ; "// that uses this DLL. This way any other project whose source files include this file see "
  ; "// FAILINGAPP_API functions as being imported from a DLL, whereas this DLL sees symbols"
  ; "// defined with this macro as being exported."
  ; "#ifdef FAILINGAPP_EXPORTS"
  ; "#define FAILINGAPP_API __declspec(dllexport)"
  ; "#else"
  ; "#define FAILINGAPP_API __declspec(dllimport)"
  ; "#endif"
  ; ""
  ; "// This class is exported from the FailingApp.dll"
  ; "class FAILINGAPP_API CFailingApp {"
  ; "public:"
  ; "	CFailingApp(void);"
  ; "	// TODO: add your methods here."
  ; "};"
  ; ""
  ; "extern FAILINGAPP_API int nFailingApp;"
  ; ""
  ; "FAILINGAPP_API int fnFailingApp(void);"
  ].

End Source.

(** ** The preprocessor *)

Module Preprocessor.
Import Lexer.

(** The macro table: object-like macros and their replacement lists. A build
    configuration is the table the compiler starts with, one entry per
    command-line definition. *)
Abbreviation macros := (gmap string (list token)).

Definition defined (tbl : macros) (x : string) : bool :=
  match tbl !! x with Some _ => true | None => false end.

(** One open conditional: whether the enclosing group is being compiled,
    whether the current branch is, and whether its [#else] was seen. *)
Record frame : Type := Frame {
  parent_active : bool;
  branch_active : bool;
  seen_else : bool
}.

Record pp_state : Type := PPState {
  tbl : macros;
  stack : list frame;
  out : list token
}.

Inductive pp_error : Type :=
  | ElseWithoutIf
  | DuplicateElse
  | EndifWithoutIf
  | ErrorDirective
  | BadDirective
  | UnterminatedIf.

Inductive result (A : Type) : Type :=
  | Ok (a : A)
  | Err (e : pp_error).
Arguments Ok {A} a.
Arguments Err {A} e.

Definition active (st : pp_state) : bool :=
  match stack st with
  | [] => true
  | f :: _ => branch_active f
  end.

(** Macro replacement with rescanning. A macro is not replaced inside its
    own expansion: [hide] holds the names being expanded. Each nested
    replacement adds a name of the table to [hide], so a fuel of one more
    than the size of the table is never used up ([expand_with_fuel]). *)
Fixpoint expand_with (fuel : nat) (tb : macros) (hide : gset string)
    (ts : list token) : list token :=
  match fuel with
  | O => ts
  | S fuel' =>
      flat_map (fun t =>
        match t with
        | Ident x =>
            match tb !! x with
            | Some body =>
                if decide (x ∈ hide) then [t]
                else expand_with fuel' tb ({[x]} ∪ hide) body
            | None => [t]
            end
        | _ => [t]
        end) ts
  end.

Definition expand (tb : macros) (ts : list token) : list token :=
  expand_with (S (size tb)) tb ∅ ts.

(** Plain substitution of one macro, without rescanning. *)
Definition subst (x : string) (body : list token) (ts : list token)
    : list token :=
  flat_map (fun t => if decide (t = Ident x) then body else [t]) ts.

Definition push (st : pp_state) (cond : bool) : pp_state :=
  PPState (tbl st)
          (Frame (active st) (active st && cond) false :: stack st)
          (out st).

Definition pp_step (st : pp_state) (l : line) : result pp_state :=
  match l with
  | LIfdef x => Ok (push st (defined (tbl st) x))
  | LIfndef x => Ok (push st (negb (defined (tbl st) x)))
  | LElse =>
      match stack st with
      | [] => Err ElseWithoutIf
      | f :: fs =>
          if seen_else f then Err DuplicateElse
          else Ok (PPState (tbl st)
                     (Frame (parent_active f)
                            (parent_active f && negb (branch_active f))
                            true :: fs)
                     (out st))
      end
  | LEndif =>
      match stack st with
      | [] => Err EndifWithoutIf
      | _ :: fs => Ok (PPState (tbl st) fs (out st))
      end
  | LDefine x body =>
      Ok (if active st then PPState (<[x := body]> (tbl st)) (stack st) (out st)
          else st)
  | LUndef x =>
      Ok (if active st then PPState (delete x (tbl st)) (stack st) (out st)
          else st)
  | LError => if active st then Err ErrorDirective else Ok st
  | LBadDirective => if active st then Err BadDirective else Ok st
  | LText ts =>
      Ok (if active st
          then PPState (tbl st) (stack st) (out st ++ expand (tbl st) ts)
          else st)
  end.

Fixpoint pp_run (st : pp_state) (ls : list line) : result pp_state :=
  match ls with
  | [] => Ok st
  | l :: ls' =>
      match pp_step st l with
      | Ok st' => pp_run st' ls'
      | Err e => Err e
      end
  end.

Definition pp_init (cfg : macros) : pp_state := PPState cfg [] [].

(** The whole unit: the final macro table and the expanded token stream. *)
Definition preprocess (cfg : macros) (ls : list line)
    : result (macros * list token) :=
  match pp_run (pp_init cfg) ls with
  | Ok st =>
      match stack st with
      | [] => Ok (tbl st, out st)
      | _ :: _ => Err UnterminatedIf
      end
  | Err e => Err e
  end.

End Preprocessor.

(** ** Declarations *)

Module Parser.
Import Lexer.

(** The two linkage attributes of a shared library boundary. *)
Inductive linkage : Type :=
  | DllExport
  | DllImport.

#[global] Instance linkage_eq_dec : EqDecision linkage.
Proof. solve_decision. Defined.

(** The specifiers in front of a declarator. *)
Record specs : Type := Specs {
  s_extern : bool;
  s_static : bool;
  s_const : bool;
  s_attr : option linkage
}.

Definition no_specs : specs := Specs false false false None.

Fixpoint parse_specs (acc : specs) (ts : list token) : specs * list token :=
  match ts with
  | Ident "extern" :: r =>
      parse_specs (Specs true (s_static acc) (s_const acc) (s_attr acc)) r
  | Ident "static" :: r =>
      parse_specs (Specs (s_extern acc) true (s_const acc) (s_attr acc)) r
  | Ident "const" :: r =>
      parse_specs (Specs (s_extern acc) (s_static acc) true (s_attr acc)) r
  | Ident "__declspec" :: Punct "(" :: Ident "dllexport" :: Punct ")" :: r =>
      parse_specs
        (Specs (s_extern acc) (s_static acc) (s_const acc) (Some DllExport)) r
  | Ident "__declspec" :: Punct "(" :: Ident "dllimport" :: Punct ")" :: r =>
      parse_specs
        (Specs (s_extern acc) (s_static acc) (s_const acc) (Some DllImport)) r
  | _ => (acc, ts)
  end.

(** The attribute a replacement list stands for, when it is exactly one. *)
Definition attr_of_tokens (ts : list token) : option linkage :=
  match parse_specs no_specs ts with
  | (Specs false false false (Some a), []) => Some a
  | _ => None
  end.

Record param : Type := Param {
  p_type : string;
  p_name : option string
}.

Inductive member : Type :=
  | MAccess (a : string)
  | MCtor (params : list param) (body : option (list token))
  | MDtor (body : option (list token))
  | MField (sp : specs) (ty name : string)
  | MMethod (sp : specs) (ret name : string) (params : list param)
            (body : option (list token))
  | MUnknown (ts : list token).

Inductive decl : Type :=
  | DClass (attr : option linkage) (name : string) (members : list member)
  | DClassFwd (attr : option linkage) (name : string)
  | DVar (sp : specs) (ty name : string) (init : option (list token))
  | DFunc (sp : specs) (ret name : string) (params : list param)
          (body : option (list token))
  | DUnknown (ts : list token).

Definition is_access (x : string) : bool :=
  bool_decide (x = "public") || bool_decide (x = "private")
  || bool_decide (x = "protected").

(** Cut a token stream into declarations: a declaration ends at a [;]
    outside braces, at a closing brace that is not followed by [;], and in a
    class body after an access label. [cur] is the declaration read so
    far. *)
Fixpoint split_decls (depth : nat) (cur ts : list token) : list (list token) :=
  match ts with
  | [] => match cur with [] => [] | _ :: _ => [cur] end
  | t :: r =>
      let cur' := (cur ++ [t]) in
      match t with
      | Punct "{" => split_decls (S depth) cur' r
      | Punct "}" =>
          match depth with
          | 1 =>
              match r with
              | Punct ";" :: _ => split_decls 0 cur' r
              | _ => cur' :: split_decls 0 [] r
              end
          | _ => split_decls (pred depth) cur' r
          end
      | Punct ";" =>
          match depth with
          | 0 => cur' :: split_decls 0 [] r
          | _ => split_decls depth cur' r
          end
      | Punct ":" =>
          match depth, cur with
          | 0, [Ident a] =>
              if is_access a then cur' :: split_decls 0 [] r
              else split_decls depth cur' r
          | _, _ => split_decls depth cur' r
          end
      | _ => split_decls depth cur' r
      end
  end.

(** The tokens up to the parenthesis that closes the one already open, and
    the tokens after it. *)
Fixpoint until_close (depth : nat) (acc ts : list token)
    : option (list token * list token) :=
  match ts with
  | [] => None
  | t :: r =>
      match t with
      | Punct "(" => until_close (S depth) (acc ++ [t]) r
      | Punct ")" =>
          match depth with
          | 0 => Some (acc, r)
          | S d => until_close d (acc ++ [t]) r
          end
      | _ => until_close depth (acc ++ [t]) r
      end
  end.

Fixpoint split_commas (cur ts : list token) : list (list token) :=
  match ts with
  | [] => [cur]
  | Punct "," :: r => cur :: split_commas [] r
  | t :: r => split_commas (cur ++ [t]) r
  end.

Definition parse_param (ts : list token) : option param :=
  match ts with
  | [Ident ty] => Some (Param ty None)
  | [Ident ty; Ident x] => Some (Param ty (Some x))
  | _ => None
  end.

Fixpoint all_some {A} (l : list (option A)) : option (list A) :=
  match l with
  | [] => Some []
  | Some a :: r =>
      match all_some r with Some r' => Some (a :: r') | None => None end
  | None :: _ => None
  end.

(** [()] and [(void)] both declare no parameter. *)
Definition parse_params (ts : list token) : option (list param) :=
  match ts with
  | [] => Some []
  | [Ident "void"] => Some []
  | _ => all_some (map parse_param (split_commas [] ts))
  end.

(** What follows a parameter list: [;] for a prototype, a braced body for a
    definition. *)
Definition parse_tail (ts : list token) : option (option (list token)) :=
  match ts with
  | [Punct ";"] => Some None
  | Punct "{" :: r =>
      match rev r with
      | Punct "}" :: b => Some (Some (rev b))
      | Punct ";" :: Punct "}" :: b => Some (Some (rev b))
      | _ => None
      end
  | _ => None
  end.

Definition parse_signature (ts : list token)
    : option (list param * option (list token)) :=
  match until_close 0 [] ts with
  | Some (ps, tail) =>
      match parse_params ps, parse_tail tail with
      | Some ps', Some b => Some (ps', b)
      | _, _ => None
      end
  | None => None
  end.

Definition parse_init (ts : list token) : option (list token) :=
  match rev ts with
  | Punct ";" :: e => Some (rev e)
  | _ => None
  end.

Definition parse_member (cname : string) (ts : list token) : member :=
  match ts with
  | [Ident a; Punct ":"] => if is_access a then MAccess a else MUnknown ts
  | Punct "~" :: Ident x :: Punct "(" :: r =>
      match parse_signature r with
      | Some ([], b) => if bool_decide (x = cname) then MDtor b else MUnknown ts
      | _ => MUnknown ts
      end
  | _ =>
      match parse_specs no_specs ts with
      | (sp, Ident x :: Punct "(" :: r) =>
          match parse_signature r with
          | Some (ps, b) =>
              if bool_decide (x = cname) then MCtor ps b else MUnknown ts
          | None => MUnknown ts
          end
      | (sp, [Ident ty; Ident x; Punct ";"]) => MField sp ty x
      | (sp, Ident ty :: Ident x :: Punct "(" :: r) =>
          match parse_signature r with
          | Some (ps, b) => MMethod sp ty x ps b
          | None => MUnknown ts
          end
      | _ => MUnknown ts
      end
  end.

Definition parse_class_body (cname : string) (ts : list token)
    : option (list member) :=
  match rev ts with
  | Punct ";" :: Punct "}" :: b =>
      Some (map (parse_member cname) (split_decls 0 [] (rev b)))
  | _ => None
  end.

Definition is_class_key (x : string) : bool :=
  bool_decide (x = "class") || bool_decide (x = "struct").

Definition parse_decl (ts : list token) : decl :=
  match ts with
  | Ident k :: r =>
      if is_class_key k then
        match parse_specs no_specs r with
        | (sp, [Ident x; Punct ";"]) => DClassFwd (s_attr sp) x
        | (sp, Ident x :: Punct "{" :: b) =>
            match parse_class_body x b with
            | Some ms => DClass (s_attr sp) x ms
            | None => DUnknown ts
            end
        | _ => DUnknown ts
        end
      else
        match parse_specs no_specs ts with
        | (sp, [Ident ty; Ident x; Punct ";"]) => DVar sp ty x None
        | (sp, Ident ty :: Ident x :: Punct "=" :: e) =>
            match parse_init e with
            | Some i => DVar sp ty x (Some i)
            | None => DUnknown ts
            end
        | (sp, Ident ty :: Ident x :: Punct "(" :: r) =>
            match parse_signature r with
            | Some (ps, b) => DFunc sp ty x ps b
            | None => DUnknown ts
            end
        | _ => DUnknown ts
        end
  | _ => DUnknown ts
  end.

Definition parse_unit (ts : list token) : list decl :=
  map parse_decl (split_decls 0 [] ts).

End Parser.

(** ** FailingApp.h through the three phases *)

Module FailingApp.
Import Lexer Source Preprocessor Parser.

Definition FAILINGAPP_EXPORTS : string := "FAILINGAPP_EXPORTS".
Definition FAILINGAPP_API : string := "FAILINGAPP_API".

(** The lines of the header. *)
Definition header : list line := lex FailingApp_h.

(** The replacement list that spells a linkage attribute. *)
Definition declspec (m : linkage) : list token :=
  [ Ident "__declspec"; Punct "(";
    Ident (match m with DllExport => "dllexport" | DllImport => "dllimport" end);
    Punct ")" ].

(** The two build configurations the comment of lines 1 to 6 speaks of:
    the DLL itself is compiled with [FAILINGAPP_EXPORTS] defined on the
    command line (a command-line definition without a value stands for 1),
    a project that uses the DLL is compiled without it. *)
Definition library_build : macros := {[FAILINGAPP_EXPORTS := [Number "1"]]}.
Definition consumer_build : macros := ∅.

(** What [FAILINGAPP_API] stands for once the header has been processed
    under the build configuration [cfg]. *)
Definition FAILINGAPP_API_body (cfg : macros) : option (list token) :=
  match preprocess cfg header with
  | Ok (tb, _) => tb !! FAILINGAPP_API
  | Err _ => None
  end.

(** The linkage attribute a macro table gives to [FAILINGAPP_API]. *)
Definition mode_of_table (tb : macros) : option linkage :=
  tb !! FAILINGAPP_API ≫= attr_of_tokens.

(** The linkage mode of the unit: the attribute of the final table. *)
Definition linkage_mode (cfg : macros) : option linkage :=
  match preprocess cfg header with
  | Ok (tb, _) => mode_of_table tb
  | Err _ => None
  end.

(** The mode the comment of lines 1 to 6 promises: export where the flag is
    defined, import where it is not. *)
Definition selected (cfg : macros) : linkage :=
  if defined cfg FAILINGAPP_EXPORTS then DllExport else DllImport.

(** The macro table once the conditional of lines 7 to 11 is closed. *)
Definition final_table (cfg : macros) : macros :=
  <[FAILINGAPP_API := declspec (selected cfg)]> cfg.

(** The tokens of the text lines, in file order. *)
Definition text_tokens : list token :=
  flat_map (fun l => match l with LText ts => ts | _ => [] end) header.

(** The declarations of the header when every use of [FAILINGAPP_API] is
    replaced by the attribute [m] and nothing else is. *)
Definition declarations (m : linkage) : list decl :=
  parse_unit (subst FAILINGAPP_API (declspec m) text_tokens).

(** The declarations a compiler sees for the header under [cfg]. *)
Definition translate (cfg : macros) : result (list decl) :=
  match preprocess cfg header with
  | Ok (_, ts) => Ok (parse_unit ts)
  | Err e => Err e
  end.

(** The macro table after the first [n] lines. *)
Definition table_after (cfg : macros) (n : nat) : result macros :=
  match pp_run (pp_init cfg) (take n header) with
  | Ok st => Ok (tbl st)
  | Err e => Err e
  end.

Definition line_idents (l : line) : list string :=
  match l with
  | LText ts => idents ts
  | LDefine _ body => idents body
  | _ => []
  end.

(** The identifiers and keywords the header uses, other than the macro it
    defines itself. *)
Definition header_idents : list string :=
  filter (fun x => x ≠ FAILINGAPP_API) (concat (map line_idents header)).

(** A build configuration is hygienic when it defines none of them as a
    macro; the flag is not among them. *)
Definition hygienic (cfg : macros) : Prop :=
  Forall (fun x => cfg !! x = None) header_idents.

(** *** Reading the declarations *)

Definition decl_name (d : decl) : option string :=
  match d with
  | DClass _ x _ | DClassFwd _ x | DVar _ _ x _ | DFunc _ _ x _ _ => Some x
  | DUnknown _ => None
  end.

Definition decl_attr (d : decl) : option linkage :=
  match d with
  | DClass a _ _ | DClassFwd a _ => a
  | DVar sp _ _ _ | DFunc sp _ _ _ _ => s_attr sp
  | DUnknown _ => None
  end.

Definition class_members (x : string) (ds : list decl) : option (list member) :=
  head (omap (fun d =>
          match d with
          | DClass _ y ms => if bool_decide (y = x) then Some ms else None
          | _ => None
          end) ds).


Definition is_func (d : decl) : bool :=
  match d with DFunc _ _ _ _ _ => true | _ => false end.

Definition fields (ms : list member) : list (string * string) :=
  omap (fun m => match m with MField _ ty x => Some (ty, x) | _ => None end) ms.

Definition ctors (ms : list member) : list (list param * option (list token)) :=
  omap (fun m => match m with MCtor ps b => Some (ps, b) | _ => None end) ms.

(** Members that are neither an access label nor a constructor:
    destructors, fields, methods, unparsed members. *)
Definition other_members (ms : list member) : list member :=
  List.filter
    (fun m => match m with MAccess _ | MCtor _ _ => false | _ => true end) ms.

(** The fields every object of the class has a copy of. *)
Definition instance_fields (ms : list member) : list (string * string) :=
  omap (fun m =>
    match m with
    | MField sp ty x => if s_static sp then None else Some (ty, x)
    | _ => None
    end) ms.

(** The values of an object of a class: one per such field. *)
Definition is_instance (ms : list member) (vals : list Z) : Prop :=
  length vals = length (instance_fields ms).

Definition member_has_body (m : member) : bool :=
  match m with
  | MCtor _ (Some _) | MDtor (Some _) | MMethod _ _ _ _ (Some _) => true
  | _ => false
  end.

(** A declaration that is also a definition of storage or of code: a
    variable that is not [extern] or has an initializer, a function with a
    body, a class with a member function defined in it. *)
Definition defines (d : decl) : bool :=
  match d with
  | DVar sp _ _ init =>
      negb (s_extern sp) || match init with Some _ => true | None => false end
  | DFunc _ _ _ _ (Some _) => true
  | DClass _ _ ms => existsb member_has_body ms
  | _ => false
  end.


(** The names a unit declares without defining them. *)
Definition defined_elsewhere (ds : list decl) : list string :=
  flat_map (fun d =>
    match d with
    | DVar _ _ x _ | DFunc _ _ x _ _ => if defines d then [] else [x]
    | DClass _ x ms =>
        flat_map (fun m =>
          match m with
          | MCtor _ None => [x +:+ "::" +:+ x]
          | MDtor None => [x +:+ "::~" +:+ x]
          | MMethod _ _ f _ None => [x +:+ "::" +:+ f]
          | _ => []
          end) ms
    | _ => []
    end) ds.

(** The text lines of the header cut into declarations, before any macro is
    replaced. *)
Definition raw_decls : list (list token) := split_decls 0 [] text_tokens.

(** How often a declaration names a macro. *)
Definition uses (x : string) (ts : list token) : nat :=
  length (List.filter (fun y => bool_decide (y = x)) (idents ts)).

End FailingApp.

(** ** The header inside a larger unit *)

Module Inclusion.
Import Lexer Preprocessor Parser FailingApp.

(** The header has no include guard and no [#pragma once]; a unit that
    includes it twice in a row holds its lines twice. *)
Definition included_twice : list line := header ++ header.

(** The declarations a compiler sees for the lines [ls] under [cfg]. *)
Definition translate_unit (cfg : macros) (ls : list line)
    : result (list decl) :=
  match preprocess cfg ls with
  | Ok (_, ts) => Ok (parse_unit ts)
  | Err e => Err e
  end.

(** How many definitions of the class [x] a unit holds. *)
Definition class_definitions (x : string) (ds : list decl) : nat :=
  length (List.filter
            (fun d => match d with
                      | DClass _ y _ => bool_decide (y = x)
                      | _ => false
                      end) ds).

End Inclusion.

(** * Properties *)

Import Lexer Source Preprocessor Parser FailingApp.

(** ** Macro expansion *)

Section Expansion.
Context (tb : macros).

Lemma expand_with_app fuel hide ts1 ts2 :
  expand_with fuel tb hide (ts1 ++ ts2)
  = expand_with fuel tb hide ts1 ++ expand_with fuel tb hide ts2.
Proof. destruct fuel; simpl; [done | apply flat_map_app]. Qed.

Lemma expand_app ts1 ts2 :
  expand tb (ts1 ++ ts2) = expand tb ts1 ++ expand tb ts2.
Proof. apply expand_with_app. Qed.

(** Entering a macro that is not hidden leaves one name fewer to enter. *)
Lemma size_hide_one x hide :
  x ∈ dom tb → x ∉ hide →
  size (dom tb ∖ hide) = S (size (dom tb ∖ ({[x]} ∪ hide))).
Proof.
  intros Hx Hn.
  replace (dom tb ∖ hide) with ({[x]} ∪ dom tb ∖ ({[x]} ∪ hide)).
  - rewrite size_union, size_singleton; [done|].
    intros y. rewrite elem_of_difference, elem_of_union. tauto.
  - apply set_eq. intros y.
    rewrite elem_of_union, !elem_of_difference, elem_of_union,
      elem_of_singleton.
    destruct (decide (y = x)) as [->|]; tauto.
Qed.

(** The fuel is never used up: with more names left in it than the table
    has outside [hide], one more unit changes nothing. *)
Lemma expand_with_fuel fuel hide ts :
  size (dom tb ∖ hide) < fuel →
  expand_with (S fuel) tb hide ts = expand_with fuel tb hide ts.
Proof.
  revert hide ts. induction fuel as [|fuel IH]; intros hide ts Hlt; [lia|].
  cbn [expand_with]. apply flat_map_ext. intros [x| |]; try done.
  destruct (tb !! x) as [body|] eqn:Hx; [|done].
  destruct (decide (x ∈ hide)) as [|Hn]; [done|].
  apply IH. rewrite (size_hide_one x hide) in Hlt; [lia| |done].
  by apply elem_of_dom.
Qed.

Lemma expand_more_fuel k ts :
  expand_with (S (size tb) + k) tb ∅ ts = expand tb ts.
Proof.
  induction k as [|k IH]; [by rewrite Nat.add_0_r|].
  rewrite Nat.add_succ_r, expand_with_fuel; [done|].
  rewrite difference_empty_L, size_dom. lia.
Qed.

(** Tokens that name no macro are left as they are. *)
Lemma expand_with_inert fuel hide ts :
  Forall (fun x => tb !! x = None) (idents ts) →
  expand_with fuel tb hide ts = ts.
Proof.
  destruct fuel; [done|]. cbn [expand_with].
  induction ts as [|t ts IH]; intros Hall; [done|].
  cbn [flat_map]. destruct t as [x| |]; cbn in Hall |- *.
  - apply Forall_cons in Hall as [-> Hall]. by rewrite IH.
  - by rewrite IH.
  - by rewrite IH.
Qed.

(** Where one macro [x] is the only one that occurs, and its replacement
    list names no macro, expansion is substitution of that list. *)
Lemma expand_subst x body ts :
  tb !! x = Some body →
  Forall (fun y => tb !! y = None) (idents body) →
  Forall (fun y => y = x ∨ tb !! y = None) (idents ts) →
  expand tb ts = subst x body ts.
Proof.
  intros Hx Hbody. unfold expand, subst. cbn [expand_with].
  induction ts as [|t ts IH]; intros Hall; [done|].
  cbn [flat_map]. destruct t as [y| |]; cbn in Hall.
  - apply Forall_cons in Hall as [Hy Hall]. rewrite IH by done. f_equal.
    destruct (decide (Ident y = Ident x)) as [ [= ->] | Hne].
    + rewrite Hx. destruct (decide (x ∈ (∅ : gset string))) as [Hin|_].
      * by apply not_elem_of_empty in Hin.
      * by apply expand_with_inert.
    + destruct Hy as [-> | ->]; [congruence|done].
  - rewrite IH by done. by destruct (decide _).
  - rewrite IH by done. by destruct (decide _).
Qed.

End Expansion.

(** ** Runs of the preprocessor *)

Lemma pp_run_app st ls1 ls2 :
  pp_run st (ls1 ++ ls2)
  = match pp_run st ls1 with
    | Ok st' => pp_run st' ls2
    | Err e => Err e
    end.
Proof.
  revert st. induction ls1 as [|l ls1 IH]; intros st; [done|].
  cbn [pp_run app]. destruct (pp_step st l); [apply IH|done].
Qed.

Lemma pp_run_prefix st ls1 ls2 st' :
  pp_run st (ls1 ++ ls2) = Ok st' → ∃ st1, pp_run st ls1 = Ok st1.
Proof. rewrite pp_run_app. destruct (pp_run st ls1); [eauto|done]. Qed.

(** A run over text lines only cannot fail, and changes neither the macro
    table nor the conditional stack. *)
Lemma pp_run_text st ls tss :
  mapM text_of ls = Some tss →
  pp_run st ls
  = Ok (if active st
        then PPState (tbl st) (stack st)
               (out st ++ expand (tbl st) (concat tss))
        else st).
Proof.
  revert st tss. induction ls as [|l ls IH]; intros st tss Hm.
  - injection Hm as <-. cbn. rewrite app_nil_r. by destruct st, (active _).
  - cbn in Hm. destruct l as [| | | | | | | |ts]; try done. cbn in Hm.
    destruct (mapM text_of ls) as [tss'|] eqn:Hls; [|done].
    injection Hm as <-. cbn [pp_run pp_step].
    rewrite (IH _ tss') by done. destruct (active st) eqn:Ha; [|by rewrite Ha].
    unfold active in *. cbn [tbl stack out concat]. rewrite Ha.
    by rewrite expand_app, app_assoc.
Qed.

(** ** The header, line by line *)

(** Lines 1 to 11: six comment lines, then the conditional. Whatever the
    configuration, exactly one of the two [#define] lines is taken. *)
Lemma run_selector cfg :
  pp_run (pp_init cfg) (take 11 header) = Ok (PPState (final_table cfg) [] []).
Proof.
  let l := eval vm_compute in (take 11 header) in
  change (take 11 header) with l.
  unfold final_table, selected, pp_init.
  cbn [pp_run pp_step push active stack tbl out seen_else parent_active
       branch_active andb negb expand expand_with flat_map app].
  unfold FAILINGAPP_EXPORTS.
  by destruct (defined cfg "FAILINGAPP_EXPORTS").
Qed.

(** Lines 12 to 22 are text. *)
Lemma rest_is_text :
  ∃ tss, mapM text_of (drop 11 header) = Some tss ∧ concat tss = text_tokens.
Proof. eexists. split; [vm_compute; reflexivity|reflexivity]. Qed.

Lemma run_header cfg :
  pp_run (pp_init cfg) header
  = Ok (PPState (final_table cfg) []
          (expand (final_table cfg) text_tokens)).
Proof.
  rewrite <- (take_drop 11 header) at 1.
  rewrite pp_run_app, run_selector.
  destruct rest_is_text as (tss & Htss & <-).
  by rewrite (pp_run_text _ _ tss).
Qed.

Lemma preprocess_header cfg :
  preprocess cfg header
  = Ok (final_table cfg, expand (final_table cfg) text_tokens).
Proof. unfold preprocess. by rewrite run_header. Qed.

(** Every prefix of the header is processed without error, and from line
    11 on the macro table is the final one and no conditional is open. *)
Lemma run_prefix cfg n :
  ∃ st, pp_run (pp_init cfg) (take n header) = Ok st
        ∧ (11 ≤ n → tbl st = final_table cfg ∧ stack st = []).
Proof.
  destruct (decide (11 ≤ n)) as [Hn|Hn].
  - assert (Hsplit : take n header
                     = take 11 header ++ take (n - 11) (drop 11 header)).
    { rewrite take_take_drop. f_equal. lia. }
    rewrite Hsplit, pp_run_app, run_selector.
    destruct rest_is_text as (tss & Htss & _).
    assert (Hm : mapM text_of (take (n - 11) (drop 11 header))
                 = Some (take (n - 11) tss)).
    { apply mapM_Some. apply Forall2_take. by apply mapM_Some. }
    rewrite (pp_run_text _ _ _ Hm). eexists. split; [done|]. by cbn.
  - destruct (pp_run_prefix (pp_init cfg) (take n header) (drop n header)
                (PPState (final_table cfg) []
                   (expand (final_table cfg) text_tokens))) as [st Hst].
    + rewrite take_drop. apply run_header.
    + exists st. split; [done|lia].
Qed.

(** ** Hygienic configurations *)

Lemma header_idents_text :
  Forall (fun y => y = FAILINGAPP_API ∨ y ∈ header_idents) (idents text_tokens).
Proof. apply (bool_decide_unpack _). vm_compute. exact I. Qed.

Lemma header_idents_declspec m :
  Forall (fun y => y ∈ header_idents) (idents (declspec m)).
Proof. destruct m; apply (bool_decide_unpack _); vm_compute; exact I. Qed.

Lemma final_table_inert cfg x :
  hygienic cfg → x ∈ header_idents → final_table cfg !! x = None.
Proof.
  intros Hcfg Hx. unfold final_table.
  apply list_elem_of_filter in Hx as Hne. destruct Hne as [Hne _].
  rewrite lookup_insert_ne by done.
  unfold hygienic in Hcfg. rewrite Forall_forall in Hcfg. by apply Hcfg.
Qed.

(** Under a hygienic configuration the only macro the text of the header
    uses is [FAILINGAPP_API], so expansion is substitution of the selected
    attribute. *)
Lemma expand_hygienic cfg :
  hygienic cfg →
  expand (final_table cfg) text_tokens
  = subst FAILINGAPP_API (declspec (selected cfg)) text_tokens.
Proof.
  intros Hcfg. apply expand_subst.
  - apply lookup_insert_eq.
  - eapply Forall_impl; [apply header_idents_declspec|].
    intros x Hx. by apply final_table_inert.
  - eapply Forall_impl; [apply header_idents_text|].
    intros x [->|Hx]; [by left|right; by apply final_table_inert].
Qed.

Lemma translate_hygienic cfg :
  hygienic cfg → translate cfg = Ok (declarations (selected cfg)).
Proof.
  intros Hcfg. unfold translate.
  by rewrite preprocess_header, expand_hygienic.
Qed.

(** The declarations of the header, with the attribute [m] selected. *)
Lemma declarations_eq m :
  declarations m
  = [ DClass (Some m) "CFailingApp" [MAccess "public"; MCtor [] None];
      DVar (Specs true false false (Some m)) "int" "nFailingApp" None;
      DFunc (Specs false false false (Some m)) "int" "fnFailingApp" [] None ].
Proof. by destruct m. Qed.

(** Hygiene of a given configuration is settled by looking up each
    identifier of the header in it. *)
Ltac hygiene := unfold hygienic; vm_compute; repeat constructor.

Lemma library_build_hygienic : hygienic library_build.
Proof. hygiene. Qed.

Lemma consumer_build_hygienic : hygienic consumer_build.
Proof. hygiene. Qed.

(** Hygiene says nothing about the flag: the empty configuration is
    hygienic, and defining [FAILINGAPP_EXPORTS], with any value, keeps a
    configuration hygienic. *)
Lemma hygienic_empty : hygienic ∅.
Proof. unfold hygienic. apply Forall_forall. intros x _. apply lookup_empty. Qed.

Lemma hygienic_flag cfg v :
  hygienic cfg → hygienic (<[FAILINGAPP_EXPORTS := v]> cfg).
Proof.
  unfold hygienic. rewrite !Forall_forall. intros Hcfg x Hx.
  rewrite lookup_insert_ne; [by apply Hcfg|].
  intros <-. revert Hx. apply (bool_decide_unpack _). vm_compute. exact I.
Qed.

(** A configuration that redefines a keyword of the header is not
    hygienic, and the declarations change with it. *)
Example keyword_macro :
  ∃ sp body,
    translate {["int" := [Ident "long"]]}
    = Ok [ DClass (Some DllImport) "CFailingApp"
             [MAccess "public"; MCtor [] None];
           DVar (Specs true false false (Some DllImport))
             "long" "nFailingApp" None;
           DFunc sp "long" "fnFailingApp" [] body ].
Proof. eexists _, _. vm_compute. reflexivity. Qed.

(** ** The phases on the header and on other text *)

(** What the lexer makes of the twenty-two lines. *)
Lemma header_lines :
  header
  = [ LText []; LText []; LText []; LText []; LText []; LText [];
      LIfdef "FAILINGAPP_EXPORTS";
      LDefine "FAILINGAPP_API" (declspec DllExport);
      LElse;
      LDefine "FAILINGAPP_API" (declspec DllImport);
      LEndif;
      LText [];
      LText [];
      LText [Ident "class"; Ident "FAILINGAPP_API"; Ident "CFailingApp";
             Punct "{"];
      LText [Ident "public"; Punct ":"];
      LText [Ident "CFailingApp"; Punct "("; Ident "void"; Punct ")";
             Punct ";"];
      LText [];
      LText [Punct "}"; Punct ";"];
      LText [];
      LText [Ident "extern"; Ident "FAILINGAPP_API"; Ident "int";
             Ident "nFailingApp"; Punct ";"];
      LText [];
      LText [Ident "FAILINGAPP_API"; Ident "int"; Ident "fnFailingApp";
             Punct "("; Ident "void"; Punct ")"; Punct ";"] ].
Proof. reflexivity. Qed.

(** The parser tells definitions from declarations: a unit with a field, a
    constructor body, an initializer and a function body. *)
Example parser_sees_definitions :
  let ds := parse_unit (flat_map lex_line
              [ "class A { int x; A() { x = 1; } };";
                "int g = 3;";
                "extern int h;";
                "int k(void) { return 42; }" ]) in
  map defines ds = [true; true; false; true]
  ∧ (fields <$> class_members "A" ds) = Some [("int", "x")]
  ∧ defined_elsewhere ds = ["h"].
Proof. vm_compute. done. Qed.

(** The preprocessor reports an [#error] that is reached, an [#else] or
    [#endif] without [#ifdef], and a conditional left open. *)
Example preprocess_errors :
  preprocess ∅ (lex ["#ifndef X"; "#error X is needed"; "#endif"])
  = Err ErrorDirective
  ∧ preprocess ∅ (lex ["#else"]) = Err ElseWithoutIf
  ∧ preprocess ∅ (lex ["#endif"]) = Err EndifWithoutIf
  ∧ preprocess ∅ (lex ["#ifdef X"; "int a;"]) = Err UnterminatedIf.
Proof. vm_compute. done. Qed.

(** Rescanning stops at a macro that is being replaced. *)
Example rescan_stops :
  expand {["a" := [Ident "b"; Punct "+"]; "b" := [Ident "a"; Ident "c"]]}
    [Ident "a"; Ident "b"]
  = [Ident "a"; Ident "c"; Punct "+"; Ident "b"; Punct "+"; Ident "c"].
Proof. vm_compute. reflexivity. Qed.

(** ** The linkage-mode selector *)

(** C1. The linkage-mode selector is a total function of the build flag:
    for every build configuration, processing the header succeeds and
    leaves [FAILINGAPP_API] standing for [__declspec(dllexport)] when
    [FAILINGAPP_EXPORTS] is defined, and for [__declspec(dllimport)] when it
    is not; there is no third outcome. *)
Theorem linkage_selector_total (cfg : macros) :
  FAILINGAPP_API_body cfg
  = Some (declspec (if defined cfg FAILINGAPP_EXPORTS
                    then DllExport else DllImport))
  ∧ linkage_mode cfg
  = Some (if defined cfg FAILINGAPP_EXPORTS then DllExport else DllImport).
Proof.
  unfold FAILINGAPP_API_body, linkage_mode, mode_of_table.
  rewrite preprocess_header. unfold final_table.
  rewrite lookup_insert_eq. unfold selected.
  by destruct (defined cfg FAILINGAPP_EXPORTS).
Qed.

(** C9. The selector has no error path and no state transition: for every
    build configuration the whole header is processed without error, so is
    every prefix of it, and after line 11 or any later line the macro table
    gives [FAILINGAPP_API] the mode that was selected. *)
Theorem selector_never_fails (cfg : macros) :
  (∃ tb ts, preprocess cfg header = Ok (tb, ts))
  ∧ (∀ n, ∃ tb, table_after cfg n = Ok tb)
  ∧ (∀ k, ∃ tb, table_after cfg (11 + k) = Ok tb
            ∧ mode_of_table tb = Some (selected cfg)).
Proof.
  split; [|split].
  - rewrite preprocess_header. eauto.
  - intros n. unfold table_after.
    destruct (run_prefix cfg n) as (st & -> & _). eauto.
  - intros k. unfold table_after.
    destruct (run_prefix cfg (11 + k)) as (st & -> & Hst).
    destruct Hst as [Htb _]; [lia|]. exists (tbl st). split; [done|].
    rewrite Htb. unfold mode_of_table, final_table.
    rewrite lookup_insert_eq. by destruct (selected cfg).
Qed.

(** ** The declarations *)

(** C2. The selected linkage mode is applied uniformly: under every
    hygienic build configuration the header declares [CFailingApp],
    [nFailingApp] and [fnFailingApp], each with the selected attribute, and
    each of the three declarations names the macro [FAILINGAPP_API] exactly
    once. *)
Theorem linkage_uniform (cfg : macros) :
  hygienic cfg →
  ∃ ds, translate cfg = Ok ds
    ∧ map decl_name ds
      = [Some "CFailingApp"; Some "nFailingApp"; Some "fnFailingApp"]
    ∧ Forall (fun d => decl_attr d = Some (selected cfg)) ds
    ∧ map (uses FAILINGAPP_API) raw_decls = [1; 1; 1].
Proof.
  intros Hcfg. exists (declarations (selected cfg)).
  rewrite translate_hygienic by done. rewrite declarations_eq.
  repeat split. repeat constructor.
Qed.

Lemma linkage_uniform_witness :
  hygienic library_build
  ∧ ∃ ds, translate library_build = Ok ds
      ∧ map decl_name ds
        = [Some "CFailingApp"; Some "nFailingApp"; Some "fnFailingApp"]
      ∧ Forall (fun d => decl_attr d = Some (selected library_build)) ds
      ∧ map (uses FAILINGAPP_API) raw_decls = [1; 1; 1].
Proof.
  assert (H : hygienic library_build) by hygiene.
  split; [exact H|]. exact (linkage_uniform library_build H).
Defined.

(** C6. The exported type placeholder is an empty structure: under every
    hygienic build configuration the class [CFailingApp] declares exactly
    one constructor, which takes no argument, and nothing else: no field
    (so no resource is held), no destructor, no method; its objects carry
    no value, so any two are equal and no invariant can tell them apart. *)
Theorem CFailingApp_is_empty (cfg : macros) :
  hygienic cfg →
  ∃ ds ms, translate cfg = Ok ds
    ∧ class_members "CFailingApp" ds = Some ms
    ∧ ctors ms = [([], None)]
    ∧ fields ms = []
    ∧ other_members ms = []
    ∧ ∀ v1 v2, is_instance ms v1 → is_instance ms v2 → v1 = v2.
Proof.
  intros Hcfg. eexists _, _.
  rewrite translate_hygienic by done. rewrite declarations_eq.
  repeat split. unfold is_instance. cbn.
  intros [|??] [|??] ??; by simplify_eq.
Qed.

Lemma CFailingApp_is_empty_witness :
  hygienic consumer_build
  ∧ ∃ ds ms, translate consumer_build = Ok ds
      ∧ class_members "CFailingApp" ds = Some ms
      ∧ ctors ms = [([], None)]
      ∧ fields ms = []
      ∧ other_members ms = []
      ∧ ∀ v1 v2, is_instance ms v1 → is_instance ms v2 → v1 = v2.
Proof.
  assert (H : hygienic consumer_build) by hygiene.
  split; [exact H|]. exact (CFailingApp_is_empty consumer_build H).
Defined.

(** C7. The exported free function takes no arguments and returns an
    integer: under every hygienic build configuration the header declares
    exactly one function, [fnFailingApp], with return type [int] and an
    empty parameter list. *)
Theorem fnFailingApp_signature (cfg : macros) :
  hygienic cfg →
  ∃ ds sp body, translate cfg = Ok ds
    ∧ List.filter is_func ds = [DFunc sp "int" "fnFailingApp" [] body].
Proof.
  intros Hcfg. eexists _, _, _.
  rewrite translate_hygienic by done. rewrite declarations_eq.
  split; reflexivity.
Qed.

Lemma fnFailingApp_signature_witness :
  hygienic library_build
  ∧ ∃ ds sp body, translate library_build = Ok ds
      ∧ List.filter is_func ds = [DFunc sp "int" "fnFailingApp" [] body].
Proof.
  assert (H : hygienic library_build) by hygiene.
  split; [exact H|]. exact (fnFailingApp_signature library_build H).
Defined.





(** ** The header inside a larger unit *)

Import Inclusion.

(** Lines 1 to 11 from any state of the preprocessor: in a group that is
    compiled the macro is selected from the table as it is there, in a
    skipped group nothing changes; the conditional stack is as before. *)
Lemma run_selector_from st :
  pp_run st (take 11 header)
  = Ok (if active st
        then PPState (final_table (tbl st)) (stack st) (out st)
        else st).
Proof.
  let l := eval vm_compute in (take 11 header) in
  change (take 11 header) with l.
  destruct st as [tb stk o]. unfold final_table, selected, active.
  destruct stk as [|[pa [] se] fs];
    cbn [pp_run pp_step push active stack tbl out seen_else parent_active
         branch_active andb negb expand expand_with flat_map];
    unfold FAILINGAPP_EXPORTS;
    try destruct (defined tb "FAILINGAPP_EXPORTS");
    cbn [pp_run pp_step push active stack tbl out seen_else parent_active
         branch_active andb negb expand expand_with flat_map];
    by rewrite ?app_nil_r.
Qed.

Lemma run_header_from st :
  pp_run st header
  = Ok (if active st
        then PPState (final_table (tbl st)) (stack st)
               (out st ++ expand (final_table (tbl st)) text_tokens)
        else st).
Proof.
  rewrite <- (take_drop 11 header) at 1.
  rewrite pp_run_app, run_selector_from.
  destruct rest_is_text as (tss & Htss & <-).
  rewrite (pp_run_text _ _ tss) by done.
  destruct (active st) eqn:Ha; [|by rewrite Ha].
  unfold active in *. cbn [stack tbl out]. by rewrite Ha.
Qed.

(** Selecting again from the table the header has left selects the same
    mode: the header does not touch the flag. *)
Lemma final_table_idem cfg : final_table (final_table cfg) = final_table cfg.
Proof.
  unfold final_table at 1. unfold selected, defined.
  unfold final_table at 1. rewrite lookup_insert_ne by done.
  fold (defined cfg FAILINGAPP_EXPORTS). fold (selected cfg).
  unfold final_table. apply insert_insert_eq.
Qed.

(** X1. Processing the header changes no macro but [FAILINGAPP_API]: under
    every build configuration, every other name, the flag
    [FAILINGAPP_EXPORTS] included, is defined after the header exactly as
    it was before. *)
Theorem header_touches_one_macro (cfg : macros) (x : string) :
  x ≠ FAILINGAPP_API →
  ∃ tb ts, preprocess cfg header = Ok (tb, ts) ∧ tb !! x = cfg !! x.
Proof.
  intros Hx. eexists _, _. rewrite preprocess_header. split; [done|].
  unfold final_table. by rewrite lookup_insert_ne.
Qed.

Lemma header_touches_one_macro_witness :
  FAILINGAPP_EXPORTS ≠ FAILINGAPP_API
  ∧ ∃ tb ts, preprocess library_build header = Ok (tb, ts)
      ∧ tb !! FAILINGAPP_EXPORTS = library_build !! FAILINGAPP_EXPORTS.
Proof.
  assert (H : FAILINGAPP_EXPORTS ≠ FAILINGAPP_API) by (vm_compute; discriminate).
  split; [exact H|].
  exact (header_touches_one_macro library_build FAILINGAPP_EXPORTS H).
Defined.

(** X2. The conditional of the header is balanced and cannot fail wherever
    the header is included: from every state of the preprocessor (any macro
    table, any open conditionals, any tokens already emitted) the header is
    processed without error, the stack of open conditionals is afterwards
    what it was, and the tokens already emitted are kept in front. *)
Theorem header_keeps_conditionals (st : pp_state) :
  ∃ st', pp_run st header = Ok st'
    ∧ stack st' = stack st
    ∧ ∃ ts, out st' = out st ++ ts.
Proof.
  rewrite run_header_from. eexists. split; [done|].
  destruct (active st); cbn [stack out].
  - split; [done|]. eauto.
  - split; [done|]. exists []. by rewrite app_nil_r.
Qed.

(** X3. Inside a skipped group the header does nothing: no macro is
    defined, no token is emitted, the state of the preprocessor is
    unchanged. *)
Theorem header_skipped (st : pp_state) :
  active st = false → pp_run st header = Ok st.
Proof. intros Ha. by rewrite run_header_from, Ha. Qed.

Lemma header_skipped_witness :
  active (PPState library_build [Frame true false false] []) = false
  ∧ pp_run (PPState library_build [Frame true false false] []) header
    = Ok (PPState library_build [Frame true false false] []).
Proof.
  split; [reflexivity|].
  exact (header_skipped (PPState library_build [Frame true false false] [])
           eq_refl).
Defined.

(** X4. The header has no include guard: under every hygienic build
    configuration a unit that includes it twice is processed without
    error, selects the same mode both times, and holds every declaration
    twice, so the class [CFailingApp] is defined twice in one unit. *)
Theorem included_twice_redefines_class (cfg : macros) :
  hygienic cfg →
  ∃ ds, translate_unit cfg included_twice = Ok ds
    ∧ ds = declarations (selected cfg) ++ declarations (selected cfg)
    ∧ class_definitions "CFailingApp" ds = 2.
Proof.
  intros Hcfg.
  exists (declarations (selected cfg) ++ declarations (selected cfg)).
  unfold translate_unit, preprocess, included_twice.
  rewrite pp_run_app, run_header, run_header_from.
  cbn [active stack tbl out app]. rewrite final_table_idem.
  rewrite expand_hygienic by done. unfold declarations.
  destruct (selected cfg); repeat split; vm_compute; reflexivity.
Qed.

Lemma included_twice_redefines_class_witness :
  hygienic consumer_build
  ∧ ∃ ds, translate_unit consumer_build included_twice = Ok ds
      ∧ ds = declarations (selected consumer_build)
             ++ declarations (selected consumer_build)
      ∧ class_definitions "CFailingApp" ds = 2.
Proof.
  assert (H : hygienic consumer_build) by hygiene.
  split; [exact H|].
  exact (included_twice_redefines_class consumer_build H).
Defined.

(** A [#define] or [#undef] at the head of a unit acts like a change of
    the configuration the rest of the unit is processed under. *)
Lemma preprocess_define_first cfg x v ls :
  preprocess cfg (LDefine x v :: ls) = preprocess (<[x := v]> cfg) ls.
Proof. reflexivity. Qed.

Lemma preprocess_undef_first cfg x ls :
  preprocess cfg (LUndef x :: ls) = preprocess (delete x cfg) ls.
Proof. reflexivity. Qed.

Lemma mode_of_final_table cfg :
  mode_of_table (final_table cfg) = Some (selected cfg).
Proof.
  unfold mode_of_table, final_table. rewrite lookup_insert_eq.
  by destruct (selected cfg).
Qed.

(** X5. The selection reads the macro table at the point of inclusion, not
    the command line: under every build configuration a unit that defines
    [FAILINGAPP_EXPORTS] itself, with any value, on the line before the
    header gets the export attribute, and a unit that undefines it there
    gets the import attribute. *)
Theorem flag_set_before_inclusion (cfg : macros) (v : list token) :
  (∃ tb ts, preprocess cfg (LDefine FAILINGAPP_EXPORTS v :: header)
            = Ok (tb, ts)
            ∧ mode_of_table tb = Some DllExport)
  ∧ (∃ tb ts, preprocess cfg (LUndef FAILINGAPP_EXPORTS :: header)
              = Ok (tb, ts)
              ∧ mode_of_table tb = Some DllImport).
Proof.
  split; eexists _, _.
  - rewrite preprocess_define_first, preprocess_header. split; [done|].
    rewrite mode_of_final_table. unfold selected, defined.
    by rewrite lookup_insert_eq.
  - rewrite preprocess_undef_first, preprocess_header. split; [done|].
    rewrite mode_of_final_table. unfold selected, defined.
    by rewrite lookup_delete_eq.
Qed.
